(** * Energy trading chaincode: reputation gating, uniqueness, score bounds

    A shallow embedding of [chaincode-go/energyTrading.go].  The contract
    is a handful of transaction functions over the Fabric world state; each
    one is a short sequence of [GetState] calls followed by at most one
    [PutState].  The embedding keeps that shape: the stub is an explicit
    state, every transaction function is a computation in a state monad,
    and Go's [(value, error)] results are pairs whose second component is
    [option error].

    Two collaborators are libraries rather than code of the contract:
    - [encoding/json] is an interface ([JSON]) with one instance per record
      type; what the theorems need of it is stated as named contracts;
    - the chaincode stub is modelled by [Stub]: a world state, the log of
      [PutState] calls, and the host's failures. *)

From Stdlib Require Import ZArith Bool List.
From Stdlib Require Import Floats.SpecFloat.
From stdpp Require Import base option countable strings gmap.

Set Default Proof Using "Type".
Local Open Scope Z_scope.

(** ** float64 *)

(** Go's [float64] is IEEE 754 binary64: [prec = 53], [emax = 1024]. *)
Module F64.

Definition t := spec_float.

Definition prec : Z := 53.
Definition emax : Z := 1024.

Definition add (x y : t) : t := SFadd prec emax x y.
Definition lt (x y : t) : bool := SFltb x y.
Definition gt (x y : t) : bool := SFltb y x.
Definition le (x y : t) : bool := SFleb x y.

(** An integer literal of the source, such as [50] or [40.0]. *)
Definition of_Z (z : Z) : t := binary_normalize prec emax z 0 false.

(** A literal with a binary fraction, [m * 2^e]; [0.25] is [scaled 1 (-2)]. *)
Definition scaled (m e : Z) : t := binary_normalize prec emax m e false.

Definition is_nan (x : t) : bool :=
  match x with S754_nan => true | _ => false end.

Definition is_finite (x : t) : bool :=
  match x with S754_zero _ | S754_finite _ _ _ => true | _ => false end.

(** The closed interval [[0,100]] of the reputation domain. *)
Definition in_0_100 (x : t) : Prop :=
  le (of_Z 0) x = true ∧ le x (of_Z 100) = true.

Global Instance eq_dec : EqDecision t.
Proof. solve_decision. Defined.

End F64.

(** ** Records of the contract *)

Record EnergyAsset := mkEnergyAsset {
  TokenID : string;
  BuyerAddress : string;
  SellerAddress : string;
  EnergyAmount : F64.t;
  TransactionPrice : F64.t;
  Timestamp : string;
  BuyerDeposit : F64.t;
  SellerDeposit : F64.t;
  TransactionState : string;
  BuyerSignature : string;
  SellerSignature : string
}.

Record TokenAccount := mkTokenAccount {
  AccountID : string;
  Balance : F64.t
}.

Record Reputation := mkReputation {
  ParticipantAddress : string;
  Score : F64.t
}.

(** [ReputationPenaltyThreshold = 40.0] *)
Definition ReputationPenaltyThreshold : F64.t := F64.of_Z 40.

(** ** Errors and bytes *)

Definition bytes := list Byte.byte.

(** Go errors are dynamic values.  The three origins that occur in the
    contract are kept apart: an error built by [fmt.Errorf] in the contract
    itself, an error of [encoding/json], and an error of the stub. *)
Inductive error :=
  | Errorf (msg : string)
  | JSONError (msg : string)
  | StubError (msg : string).

Global Instance error_eq_dec : EqDecision error.
Proof. solve_decision. Defined.

(** The messages of the contract, named after the rule they report. *)
Definition ErrNotFound (tokenID : string) : error :=
  Errorf ("asset " +:+ tokenID +:+ " does not exist").
Definition ErrAlreadyExists (tokenID : string) : error :=
  Errorf ("asset " +:+ tokenID +:+ " already exists").
Definition ErrBuyerReputationTooLow (buyerAddress : string) : error :=
  Errorf ("buyer " +:+ buyerAddress +:+ " reputation too low").
Definition ErrSellerReputationTooLow (sellerAddress : string) : error :=
  Errorf ("seller " +:+ sellerAddress +:+ " reputation too low").

(** [err != nil] *)
Definition failed (err : option error) : bool :=
  match err with Some _ => true | None => false end.

(** [b == nil] for a byte slice returned by the stub or by [json.Marshal]. *)
Definition is_nil (b : option bytes) : bool :=
  match b with None => true | Some _ => false end.

(** ** encoding/json *)

(** [json.Marshal] either yields bytes or fails; [json.Unmarshal] fills a
    zero value and reports an error next to whatever it has filled in. *)
Class JSON (T : Type) := {
  Marshal : T → bytes + string;
  Unmarshal : bytes → T * option string
}.

Definition json_Marshal `{JSON T} (v : T) : option bytes * option error :=
  match Marshal v with
  | inl b => (Some b, None)
  | inr msg => (None, Some (JSONError msg))
  end.

(** [json.Unmarshal(b, &v)]; a [nil] slice is read as the empty input. *)
Definition json_Unmarshal `{JSON T} (b : option bytes) : T * option error :=
  let '(v, e) := Unmarshal (default [] b) in (v, JSONError <$> e).

(** Contracts of the codec.  [encoding/json] refuses NaN and the
    infinities with an [UnsupportedValueError]; a score it has written is
    read back as the same number; a record [round_trips] when its encoding
    is not empty and reading it gives the record back. *)
Definition refuses_non_finite `{JSON Reputation} : Prop :=
  ∀ r b, Marshal r = inl b → F64.is_finite (Score r) = true.


Definition round_trips `{JSON T} (v : T) : Prop :=
  ∀ b, Marshal v = inl b → b ≠ [] ∧ Unmarshal b = (v, None).

(** ** The chaincode stub *)

(** [state] is the world state the peer holds for the chaincode, [puts]
    the [PutState] calls made so far (latest last), and [get_failure] and
    [put_failure] the host's I/O failures: the error, if any, with which
    the stub answers a call on a key. *)
Record Stub := mkStub {
  state : gmap string bytes;
  puts : list (string * option bytes);
  get_failure : string → option string;
  put_failure : string → option string
}.

(** Computations over the stub. *)
Definition M (A : Type) : Type := Stub → A * Stub.

Definition ret {A} (a : A) : M A := λ st, (a, st).
Definition bind {A B} (m : M A) (k : A → M B) : M B :=
  λ st, let '(a, st') := m st in k a st'.

Notation "'let*' x := m 'in' k" := (bind m (λ x, k))
  (at level 10, x name, m at level 100, k at level 200, only parsing).
Notation "'let*' ' p := m 'in' k" := (bind m (λ x, match x with p => k end))
  (at level 10, p pattern, m at level 100, k at level 200, only parsing).

(** [GetState]: on an I/O failure the shim returns a nil payload and the
    error; otherwise the stored bytes, or nil when the key is absent. *)
Definition GetState (key : string) : M (option bytes * option error) :=
  λ st,
    match get_failure st key with
    | Some msg => ((None, Some (StubError msg)), st)
    | None => ((state st !! key, None), st)
    end.

(** [PutState]: the shim refuses the empty key; the host may fail; an
    accepted write stores the value, except that a value of length 0 (nil
    or empty) removes the key: Fabric's write set marks a write of no
    bytes as a deletion, and the mock stub does the same. *)
Definition PutState (key : string) (value : option bytes) : M (option error) :=
  λ st,
    let called := mkStub (state st) (puts st ++ [(key, value)])
                         (get_failure st) (put_failure st) in
    if decide (key = "") then
      (Some (StubError "key must not be an empty string"), called)
    else
      match put_failure st key with
      | Some msg => (Some (StubError msg), called)
      | None =>
          let state' :=
            match value with
            | Some (c :: b) => <[key := c :: b]> (state st)
            | _ => delete key (state st)
            end in
          (None, mkStub state' (puts called) (get_failure st) (put_failure st))
      end.

(** ** The contract *)

Section Contract.

Context `{JSON_EnergyAsset : JSON EnergyAsset}.
Context `{JSON_TokenAccount : JSON TokenAccount}.
Context `{JSON_Reputation : JSON Reputation}.

(** The loops of [InitLedger]: marshal each record and put it under its
    key, returning at the first error. *)
Fixpoint put_all {T} `{JSON T} (key : T → string) (records : list T)
  : M (option error) :=
  match records with
  | [] => ret None
  | record :: rest =>
      let '(recordJSON, err) := json_Marshal record in
      if failed err then ret err
      else
        let* err := PutState (key record) recordJSON in
        if failed err then ret err else put_all key rest
  end.

Definition InitLedger : M (option error) :=
  let accounts :=
    [ mkTokenAccount "buyer1" (F64.of_Z 100);
      mkTokenAccount "seller1" (F64.of_Z 100) ] in
  let* err := put_all AccountID accounts in
  if failed err then ret err
  else
    let assets :=
      [ mkEnergyAsset "energy1" "buyer1" "seller1"
          (F64.of_Z 100) (F64.scaled 1 (-2)) "2025-05-03T10:00:00Z"
          (F64.of_Z 10) (F64.of_Z 10) "CREATED"
          "buyer_signature_example" "seller_signature_example" ] in
    let* err := put_all TokenID assets in
    if failed err then ret err
    else
      let reputations :=
        [ mkReputation "buyer1" (F64.of_Z 80);
          mkReputation "seller1" (F64.of_Z 85) ] in
      let* err := put_all ParticipantAddress reputations in
      if failed err then ret err else ret None.

(** The result is Go's pair of a pointer and an error: the pointer is nil
    on the first return and set, next to the decoding error, on the
    second. *)
Definition ReadEnergyAsset (tokenID : string)
  : M (option EnergyAsset * option error) :=
  let* '(assetJSON, err) := GetState tokenID in
  if failed err || is_nil assetJSON then
    ret (None, Some (ErrNotFound tokenID))
  else
    let '(asset, err) := json_Unmarshal assetJSON in
    ret (Some asset, err).

Definition EnergyAssetExists (tokenID : string) : M (bool * option error) :=
  let* '(assetJSON, err) := GetState tokenID in
  ret (negb (is_nil assetJSON), err).

(** The pointer returned is never nil, so the result carries the record. *)
Definition ReadReputationScore (participantAddress : string)
  : M (Reputation * option error) :=
  let* '(repJSON, err) := GetState participantAddress in
  if is_nil repJSON || failed err then
    ret (mkReputation participantAddress (F64.of_Z 50), None)
  else
    let '(rep, err) := json_Unmarshal repJSON in
    ret (rep, err).

Definition CheckReputationPenalty (participantAddress : string)
  : M (bool * option error) :=
  let* '(reputation, err) := ReadReputationScore participantAddress in
  ret (F64.lt (Score reputation) ReputationPenaltyThreshold, err).

Definition CreateEnergyAsset
    (tokenID buyerAddress sellerAddress : string)
    (energyAmount transactionPrice : F64.t) (timestamp : string)
    (buyerDeposit sellerDeposit : F64.t) : M (option error) :=
  let* '(penalty, err) := CheckReputationPenalty buyerAddress in
  if penalty || failed err then
    ret (Some (ErrBuyerReputationTooLow buyerAddress))
  else
    let* '(penalty, err) := CheckReputationPenalty sellerAddress in
    if penalty || failed err then
      ret (Some (ErrSellerReputationTooLow sellerAddress))
    else
      let* '(exists_, err) := EnergyAssetExists tokenID in
      if exists_ || failed err then
        ret (Some (ErrAlreadyExists tokenID))
      else
        let asset :=
          mkEnergyAsset tokenID buyerAddress sellerAddress
            energyAmount transactionPrice timestamp
            buyerDeposit sellerDeposit "CREATED" "" "" in
        let '(assetJSON, err) := json_Marshal asset in
        if failed err then ret err
        else PutState tokenID assetJSON.

(** [reputation.Score += delta] followed by the two-sided clamp. *)
Definition clamp (score : F64.t) : F64.t :=
  if F64.gt score (F64.of_Z 100) then F64.of_Z 100
  else if F64.lt score (F64.of_Z 0) then F64.of_Z 0
  else score.

(** The error of [json.Marshal] is overwritten, not checked: whatever
    bytes it returned, nil on failure, go to [PutState]. *)
Definition UpdateReputationScore (participantAddress : string) (delta : F64.t)
  : M (option error) :=
  let* '(reputation, err) := ReadReputationScore participantAddress in
  if failed err then ret err
  else
    let reputation :=
      mkReputation (ParticipantAddress reputation)
                   (clamp (F64.add (Score reputation) delta)) in
    let '(repJSON, _) := json_Marshal reputation in
    PutState participantAddress repJSON.

End Contract.

(** ** A reference codec and the seeded ledger *)

(** An instance of [JSON] that meets the contracts above, used to run the
    contract on concrete ledgers.  It shares with [encoding/json] what the
    contract can observe: it refuses records holding NaN or an infinity,
    never produces an empty encoding, rejects the empty input, and reads
    back what it wrote.  The bytes themselves are a binary numeral of the
    record's code, not JSON text. *)
Module Reference.

Fixpoint bytes_of_pos (p : positive) : bytes :=
  match p with
  | xH => []
  | xO q => Byte.x30 :: bytes_of_pos q
  | xI q => Byte.x31 :: bytes_of_pos q
  end.

Fixpoint pos_of_bytes (b : bytes) : option positive :=
  match b with
  | [] => Some xH
  | Byte.x30 :: r => xO <$> pos_of_bytes r
  | Byte.x31 :: r => xI <$> pos_of_bytes r
  | _ => None
  end.

Definition float_to_sum (x : F64.t) : bool + bool + unit + bool * positive * Z :=
  match x with
  | S754_zero s => inl (inl (inl s))
  | S754_infinity s => inl (inl (inr s))
  | S754_nan => inl (inr ())
  | S754_finite s m e => inr (s, m, e)
  end.

Definition float_of_sum (x : bool + bool + unit + bool * positive * Z) : F64.t :=
  match x with
  | inl (inl (inl s)) => S754_zero s
  | inl (inl (inr s)) => S754_infinity s
  | inl (inr _) => S754_nan
  | inr (s, m, e) => S754_finite s m e
  end.

Global Instance F64_countable : Countable F64.t.
Proof.
  apply (inj_countable' float_to_sum float_of_sum); by intros [].
Defined.

Definition asset_fields (a : EnergyAsset) : list string * list F64.t :=
  ([TokenID a; BuyerAddress a; SellerAddress a; Timestamp a;
    TransactionState a; BuyerSignature a; SellerSignature a],
   [EnergyAmount a; TransactionPrice a; BuyerDeposit a; SellerDeposit a]).

Definition asset_of_fields (f : list string * list F64.t) : option EnergyAsset :=
  match f with
  | ([tok; buyer; seller; ts; st; bsig; ssig], [amount; price; bdep; sdep]) =>
      Some (mkEnergyAsset tok buyer seller amount price ts bdep sdep st bsig ssig)
  | _ => None
  end.

Global Instance EnergyAsset_eq_dec : EqDecision EnergyAsset.
Proof. solve_decision. Defined.
Global Instance EnergyAsset_countable : Countable EnergyAsset.
Proof. apply (inj_countable asset_fields asset_of_fields); by intros []. Defined.

Global Instance TokenAccount_eq_dec : EqDecision TokenAccount.
Proof. solve_decision. Defined.
Global Instance TokenAccount_countable : Countable TokenAccount.
Proof.
  apply (inj_countable' (λ a, (AccountID a, Balance a))
                        (λ p, mkTokenAccount p.1 p.2)); by intros [].
Defined.

Global Instance Reputation_eq_dec : EqDecision Reputation.
Proof. solve_decision. Defined.
Global Instance Reputation_countable : Countable Reputation.
Proof.
  apply (inj_countable' (λ r, (ParticipantAddress r, Score r))
                        (λ p, mkReputation p.1 p.2)); by intros [].
Defined.

(** The codec of a record type with zero value [zero] whose numeric
    fields are listed by [numbers]. *)
Definition codec {T} `{Countable T} (zero : T) (numbers : T → list F64.t)
  : JSON T := {|
  Marshal v :=
    if forallb F64.is_finite (numbers v)
    then inl (Byte.x7b :: bytes_of_pos (encode v))
    else inr "json: unsupported value";
  Unmarshal b :=
    match b with
    | Byte.x7b :: r =>
        match pos_of_bytes r ≫= decode with
        | Some v => (v, None)
        | None => (zero, Some "invalid character")
        end
    | _ => (zero, Some "unexpected end of JSON input")
    end
|}.

Definition zero : F64.t := S754_zero false.

Definition asset : JSON EnergyAsset :=
  codec (mkEnergyAsset "" "" "" zero zero "" zero zero "" "" "")
        (λ a, (asset_fields a).2).
Definition account : JSON TokenAccount :=
  codec (mkTokenAccount "" zero) (λ a, [Balance a]).
Definition reputation : JSON Reputation :=
  codec (mkReputation "" zero) (λ r, [Score r]).

(** A reachable host with nothing stored, and the ledger after
    [InitLedger]. *)
Definition genesis : Stub := mkStub ∅ [] (λ _, None) (λ _, None).

Definition seeded : Stub :=
  (@InitLedger asset account reputation genesis).2.

End Reference.

(** ** Vocabulary of the statements *)

(** The default record of a participant without a stored one. *)
Definition default_reputation (participantAddress : string) : Reputation :=
  mkReputation participantAddress (F64.of_Z 50).

(** The score of a participant in the words of the specification: the
    stored one, or 50 when no record is stored under the key. *)
Definition score_of `{JSON Reputation} (st : Stub) (participantAddress : string)
  : F64.t :=
  match state st !! participantAddress with
  | Some repJSON => Score (Unmarshal repJSON).1
  | None => F64.of_Z 50
  end.

(** A participant passes the gate of [CreateEnergyAsset] when the read of
    the score raised no error and the score is not below the threshold. *)
Definition passes `{JSON Reputation} (st : Stub) (participantAddress : string)
  : Prop :=
  (CheckReputationPenalty participantAddress st).1 = (false, None).

Global Instance passes_dec `{JSON Reputation} st participantAddress :
  Decision (passes st participantAddress).
Proof. unfold passes. apply _. Defined.

(** The record that [CreateEnergyAsset] builds from its arguments. *)
Definition created
    (tokenID buyerAddress sellerAddress : string)
    (energyAmount transactionPrice : F64.t) (timestamp : string)
    (buyerDeposit sellerDeposit : F64.t) : EnergyAsset :=
  mkEnergyAsset tokenID buyerAddress sellerAddress energyAmount
    transactionPrice timestamp buyerDeposit sellerDeposit "CREATED" "" "".

(** The same ledger behind a host whose reads of [key] fail. *)
Definition unreachable (key : string) (st : Stub) : Stub :=
  mkStub (state st) (puts st)
    (λ k, if decide (k = key) then Some "peer unavailable"
          else get_failure st k)
    (put_failure st).

(** Ledgers on which the statements are exercised: the seeded ledger of
    [InitLedger] ([buyer1] at 80, [seller1] at 85, [energy1] recorded), and
    the same ledger after both participants have lost their standing
    ([buyer1] at 30, [seller1] at 25). *)
Module Scenario.

#[local] Existing Instances
  Reference.asset Reference.account Reference.reputation.

Definition seeded : Stub := Reference.seeded.

Definition disgraced : Stub :=
  (UpdateReputationScore "seller1" (F64.of_Z (-60))
     (UpdateReputationScore "buyer1" (F64.of_Z (-50)) seeded).2).2.

Definition five : F64.t := F64.of_Z 5.
Definition quarter : F64.t := F64.scaled 1 (-2).
Definition noon : string := "2025-05-04T12:00:00Z".

End Scenario.

(** ** Vocabulary of the further statements *)

(** The record that [UpdateReputationScore] hands to [json.Marshal]: the
    record it read, with the delta added to the score and the sum clamped. *)
Definition updated (rep : Reputation) (delta : F64.t) : Reputation :=
  mkReputation (ParticipantAddress rep) (clamp (F64.add (Score rep) delta)).

(** What an accepted [PutState] of [value] under [key] makes of the world
    state. *)
Definition put_effect (key : string) (value : option bytes)
    (world : gmap string bytes) : gmap string bytes :=
  match value with
  | Some (c :: b) => <[key := c :: b]> world
  | _ => delete key world
  end.

(** The three slices that [InitLedger] ranges over. *)
Definition seed_accounts : list TokenAccount :=
  [ mkTokenAccount "buyer1" (F64.of_Z 100);
    mkTokenAccount "seller1" (F64.of_Z 100) ].

Definition seed_assets : list EnergyAsset :=
  [ mkEnergyAsset "energy1" "buyer1" "seller1"
      (F64.of_Z 100) (F64.scaled 1 (-2)) "2025-05-03T10:00:00Z"
      (F64.of_Z 10) (F64.of_Z 10) "CREATED"
      "buyer_signature_example" "seller_signature_example" ].

Definition seed_reputations : list Reputation :=
  [ mkReputation "buyer1" (F64.of_Z 80);
    mkReputation "seller1" (F64.of_Z 85) ].

(** The five seed records by name. *)
Definition buyer1_account : TokenAccount :=
  mkTokenAccount "buyer1" (F64.of_Z 100).
Definition seller1_account : TokenAccount :=
  mkTokenAccount "seller1" (F64.of_Z 100).
Definition energy1_asset : EnergyAsset :=
  mkEnergyAsset "energy1" "buyer1" "seller1"
    (F64.of_Z 100) (F64.scaled 1 (-2)) "2025-05-03T10:00:00Z"
    (F64.of_Z 10) (F64.of_Z 10) "CREATED"
    "buyer_signature_example" "seller_signature_example".
Definition buyer1_reputation : Reputation :=
  mkReputation "buyer1" (F64.of_Z 80).
Definition seller1_reputation : Reputation :=
  mkReputation "seller1" (F64.of_Z 85).

(** The same ledger behind a host that refuses every put on [key]. *)
Definition read_only (key : string) (st : Stub) : Stub :=
  mkStub (state st) (puts st) (get_failure st)
    (λ k, if decide (k = key) then Some "endorsement failed"
          else put_failure st k).

(** The same host with [value] stored under [key]. *)
Definition holding (key : string) (value : bytes) (st : Stub) : Stub :=
  mkStub (<[key := value]> (state st)) (puts st)
    (get_failure st) (put_failure st).

(** ** Facts about float64 comparison *)

Section F64_facts.

Lemma SFcompare_swap (x y : F64.t) (c : comparison) :
  SFcompare x y = Some c → SFcompare y x = Some (CompOpp c).
Proof.
  destruct x as [sx|sx| |sx mx ex], y as [sy|sy| |sy my ey]; simpl;
    try discriminate;
    try (intros [= <-]; by repeat match goal with s : bool |- _ => destruct s end).
  intros [= <-]. f_equal.
  rewrite (Z.compare_antisym ex ey).
  pose proof (Pos.compare_cont_antisym mx my Eq) as Hm. simpl in Hm.
  destruct sx, sy; simpl; try reflexivity;
    destruct (ex ?= ey); simpl; try reflexivity;
    rewrite <- Hm; by rewrite ?CompOpp_involutive.
Qed.


Lemma F64_le_not_lt (x y : F64.t) : F64.le x y = true → F64.lt y x = false.
Proof.
  unfold F64.le, F64.lt, SFleb, SFltb.
  destruct (SFcompare x y) as [c|] eqn:E; [|discriminate].
  rewrite (SFcompare_swap _ _ _ E). by destruct c.
Qed.


Lemma F64_lt_irrefl (x : F64.t) : F64.lt x x = false.
Proof.
  unfold F64.lt, SFltb. destruct (SFcompare x x) as [c|] eqn:E; [|done].
  pose proof (SFcompare_swap _ _ _ E) as E'. rewrite E in E'.
  by destruct c.
Qed.

End F64_facts.

(** ** Properties of the contract *)

Section Properties.

Context `{JSON_EnergyAsset : JSON EnergyAsset}.
Context `{JSON_Reputation : JSON Reputation}.

(** *** The clamp *)


Lemma clamp_nan (x : F64.t) : F64.is_nan (clamp x) = F64.is_nan x.
Proof.
  unfold clamp.
  destruct (F64.gt x (F64.of_Z 100)) eqn:Hgt; [by destruct x|].
  destruct (F64.lt x (F64.of_Z 0)) eqn:Hlt; [by destruct x|done].
Qed.

(** *** Reads leave the stub as it is *)

Lemma GetState_reachable key st :
  get_failure st key = None → GetState key st = ((state st !! key, None), st).
Proof. unfold GetState. by intros ->. Qed.

Lemma GetState_failure key st msg :
  get_failure st key = Some msg →
  GetState key st = ((None, Some (StubError msg)), st).
Proof. unfold GetState. by intros ->. Qed.

Lemma GetState_stub key st : (GetState key st).2 = st.
Proof. unfold GetState. by destruct (get_failure st key). Qed.

Lemma ReadReputationScore_stub p st : (ReadReputationScore p st).2 = st.
Proof.
  unfold ReadReputationScore, bind, ret, GetState.
  destruct (get_failure st p); [done|].
  destruct (state st !! p) as [b|]; [|done].
  simpl. unfold json_Unmarshal. by destruct (Unmarshal _).
Qed.

Lemma ReadReputationScore_absent p st :
  state st !! p = None →
  ReadReputationScore p st = ((default_reputation p, None), st).
Proof.
  intros Habs. unfold ReadReputationScore, bind, ret, GetState.
  destruct (get_failure st p); [done|]. by rewrite Habs.
Qed.

Lemma ReadReputationScore_failure p st msg :
  get_failure st p = Some msg →
  ReadReputationScore p st = ((default_reputation p, None), st).
Proof.
  intros Hf. unfold ReadReputationScore, bind.
  by rewrite (GetState_failure _ _ _ Hf).
Qed.

Lemma ReadReputationScore_stored p st repJSON :
  get_failure st p = None → state st !! p = Some repJSON →
  let decoded : Reputation * option string := Unmarshal repJSON in
  ReadReputationScore p st = ((decoded.1, JSONError <$> decoded.2), st).
Proof.
  intros Hr Hs. unfold ReadReputationScore, bind.
  rewrite (GetState_reachable _ _ Hr), Hs. simpl.
  unfold json_Unmarshal. simpl. by destruct (Unmarshal repJSON).
Qed.

Lemma CheckReputationPenalty_eq p st :
  CheckReputationPenalty p st =
    ((F64.lt (Score (ReadReputationScore p st).1.1) ReputationPenaltyThreshold,
      (ReadReputationScore p st).1.2), st).
Proof.
  unfold CheckReputationPenalty, bind, ret.
  pose proof (ReadReputationScore_stub p st) as Hst.
  destruct (ReadReputationScore p st) as [[rep err] st']. simpl in *.
  by subst.
Qed.

Lemma EnergyAssetExists_eq tokenID st :
  EnergyAssetExists tokenID st =
    ((negb (is_nil (GetState tokenID st).1.1), (GetState tokenID st).1.2), st).
Proof.
  unfold EnergyAssetExists, bind, ret.
  pose proof (GetState_stub tokenID st) as Hst.
  destruct (GetState tokenID st) as [[b err] st']. simpl in *. by subst.
Qed.

(** *** What a put does *)

Lemma PutState_cases key value st :
  let result := PutState key value st in
  puts result.2 = puts st ++ [(key, value)] ∧
  get_failure result.2 = get_failure st ∧
  put_failure result.2 = put_failure st ∧
  match result.1 with
  | None =>
      key ≠ "" ∧ put_failure st key = None ∧
      state result.2 =
        match value with
        | Some (c :: b) => <[key := c :: b]> (state st)
        | _ => delete key (state st)
        end
  | Some e => state result.2 = state st ∧ ∃ msg, e = StubError msg
  end.
Proof.
  unfold PutState. simpl.
  destruct (decide (key = "")) as [->|Hkey]; simpl; [by eauto 6|].
  destruct (put_failure st key) as [msg|] eqn:Hput; simpl; by eauto 6.
Qed.

(** *** CreateEnergyAsset, branch by branch *)

Section Create.

Variables tokenID buyerAddress sellerAddress : string.
Variables energyAmount transactionPrice : F64.t.
Variable timestamp : string.
Variables buyerDeposit sellerDeposit : F64.t.
Variable st : Stub.

Let create : Stub → option error * Stub :=
  CreateEnergyAsset tokenID buyerAddress sellerAddress energyAmount
    transactionPrice timestamp buyerDeposit sellerDeposit.
Let asset : EnergyAsset :=
  created tokenID buyerAddress sellerAddress energyAmount
    transactionPrice timestamp buyerDeposit sellerDeposit.

Lemma create_buyer_rejected :
  (CheckReputationPenalty buyerAddress st).1 ≠ (false, None) →
  create st = (Some (ErrBuyerReputationTooLow buyerAddress), st).
Proof using Type.
  subst create. unfold CreateEnergyAsset, bind.
  rewrite CheckReputationPenalty_eq. cbv beta iota. simpl fst.
  destruct (F64.lt _ _); [done|].
  destruct ((ReadReputationScore buyerAddress st).1.2); [done|].
  by intros [].
Qed.

Lemma create_seller_rejected :
  passes st buyerAddress →
  (CheckReputationPenalty sellerAddress st).1 ≠ (false, None) →
  create st = (Some (ErrSellerReputationTooLow sellerAddress), st).
Proof using Type.
  unfold passes. intros Hb.
  subst create. unfold CreateEnergyAsset, bind.
  pose proof (CheckReputationPenalty_eq buyerAddress st) as Eb.
  destruct (CheckReputationPenalty buyerAddress st) as [rb sb].
  simpl in Hb. subst rb. injection Eb as _ _ ->. simpl.
  rewrite CheckReputationPenalty_eq. cbv beta iota. simpl fst.
  destruct (F64.lt _ _); [done|].
  destruct ((ReadReputationScore sellerAddress st).1.2); [done|].
  by intros [].
Qed.

(** Past both gates, what is left of the function is the uniqueness
    check, the encoding and the put. *)
Lemma create_past_gates :
  passes st buyerAddress → passes st sellerAddress →
  create st =
    (if negb (is_nil (GetState tokenID st).1.1)
        || failed (GetState tokenID st).1.2
     then (Some (ErrAlreadyExists tokenID), st)
     else match Marshal asset with
          | inl assetJSON => PutState tokenID (Some assetJSON) st
          | inr msg => (Some (JSONError msg), st)
          end).
Proof using Type.
  unfold passes. intros Hb Hs.
  subst create asset. unfold CreateEnergyAsset, created, bind.
  pose proof (CheckReputationPenalty_eq buyerAddress st) as Eb.
  destruct (CheckReputationPenalty buyerAddress st) as [rb sb].
  simpl in Hb. subst rb. injection Eb as _ _ ->. simpl.
  pose proof (CheckReputationPenalty_eq sellerAddress st) as Es.
  destruct (CheckReputationPenalty sellerAddress st) as [rs ss].
  simpl in Hs. subst rs. injection Es as _ _ ->. simpl.
  rewrite EnergyAssetExists_eq. cbv beta iota. simpl fst. simpl snd.
  destruct (negb _ || failed _); [done|].
  unfold json_Marshal. by destruct (Marshal _).
Qed.

End Create.

(** The whole of [CreateEnergyAsset] as a decision list: the buyer's
    gate, then the seller's, then the uniqueness check, then the
    encoding and the single put. *)
Lemma CreateEnergyAsset_decision_list
    tokenID buyerAddress sellerAddress energyAmount transactionPrice
    timestamp buyerDeposit sellerDeposit st :
  CreateEnergyAsset tokenID buyerAddress sellerAddress energyAmount
    transactionPrice timestamp buyerDeposit sellerDeposit st =
  if decide (passes st buyerAddress) then
    if decide (passes st sellerAddress) then
      if negb (is_nil (GetState tokenID st).1.1)
         || failed (GetState tokenID st).1.2
      then (Some (ErrAlreadyExists tokenID), st)
      else match Marshal (created tokenID buyerAddress sellerAddress
                            energyAmount transactionPrice timestamp
                            buyerDeposit sellerDeposit) with
           | inl assetJSON => PutState tokenID (Some assetJSON) st
           | inr msg => (Some (JSONError msg), st)
           end
    else (Some (ErrSellerReputationTooLow sellerAddress), st)
  else (Some (ErrBuyerReputationTooLow buyerAddress), st).
Proof.
  destruct (decide (passes st buyerAddress)) as [Hb|Hb].
  - destruct (decide (passes st sellerAddress)) as [Hs|Hs].
    + by apply create_past_gates.
    + by apply create_seller_rejected.
  - by apply create_buyer_rejected.
Qed.

Lemma passes_of_score participantAddress st rep :
  (ReadReputationScore participantAddress st).1 = (rep, None) →
  F64.le ReputationPenaltyThreshold (Score rep) = true →
  passes st participantAddress.
Proof.
  intros Hread Hle. unfold passes.
  rewrite CheckReputationPenalty_eq. simpl. rewrite Hread. simpl.
  by rewrite (F64_le_not_lt _ _ Hle).
Qed.

(** *** The claims *)

(** C1. The buyer's gate comes first and short-circuits: whenever the
    score that the contract reads for the buyer is below 40,
    [CreateEnergyAsset] fails with the buyer's reputation-too-low error
    and leaves the stub as it was, whatever the seller's score and
    whether or not a record is stored under [tokenID]. *)
Theorem CreateEnergyAsset_buyer_checked_first
    tokenID buyerAddress sellerAddress energyAmount transactionPrice
    timestamp buyerDeposit sellerDeposit st :
  F64.lt (Score (ReadReputationScore buyerAddress st).1.1)
         (F64.of_Z 40) = true →
  CreateEnergyAsset tokenID buyerAddress sellerAddress energyAmount
    transactionPrice timestamp buyerDeposit sellerDeposit st
  = (Some (ErrBuyerReputationTooLow buyerAddress), st).
Proof.
  intros Hlow. apply create_buyer_rejected.
  rewrite CheckReputationPenalty_eq. simpl.
  unfold ReputationPenaltyThreshold. rewrite Hlow. congruence.
Qed.

(** C3. When the buyer and the seller both have a score of at least 40
    and a record is stored under [tokenID], [CreateEnergyAsset] fails
    with the already-exists error, and the stored record is still there,
    unchanged. *)
Theorem CreateEnergyAsset_rejects_taken_tokenID
    tokenID buyerAddress sellerAddress energyAmount transactionPrice
    timestamp buyerDeposit sellerDeposit st buyer seller recorded :
  (ReadReputationScore buyerAddress st).1 = (buyer, None) →
  F64.le (F64.of_Z 40) (Score buyer) = true →
  (ReadReputationScore sellerAddress st).1 = (seller, None) →
  F64.le (F64.of_Z 40) (Score seller) = true →
  state st !! tokenID = Some recorded →
  let result :=
    CreateEnergyAsset tokenID buyerAddress sellerAddress energyAmount
      transactionPrice timestamp buyerDeposit sellerDeposit st in
  result = (Some (ErrAlreadyExists tokenID), st) ∧
  state result.2 !! tokenID = Some recorded.
Proof.
  intros Hb Hbs Hs Hss Hrec result.
  assert (result = (Some (ErrAlreadyExists tokenID), st)) as ->; [|done].
  subst result. rewrite create_past_gates; eauto using passes_of_score.
  unfold GetState. destruct (get_failure st tokenID); simpl; [done|].
  by rewrite Hrec.
Qed.

(** C4. For a participant with no record stored under its address,
    [ReadReputationScore] returns the synthesized record with that address
    and score 50, with no error, and leaves the stub as it was. *)
Theorem ReadReputationScore_default participantAddress st :
  state st !! participantAddress = None →
  ReadReputationScore participantAddress st =
    ((mkReputation participantAddress (F64.of_Z 50), None), st).
Proof. apply ReadReputationScore_absent. Qed.

(** C7. On a reachable store, [CheckReputationPenalty] answers true
    exactly when the participant's score, the stored one or 50 when no
    record is stored, is strictly below 40; a score of exactly 40 is not
    penalized; and the stub is left as it was. *)
Theorem CheckReputationPenalty_below_threshold participantAddress st :
  get_failure st participantAddress = None →
  let result := CheckReputationPenalty participantAddress st in
  (result.1.1 = true ↔
     F64.lt (score_of st participantAddress) (F64.of_Z 40) = true) ∧
  (score_of st participantAddress = F64.of_Z 40 → result.1.1 = false) ∧
  result.2 = st.
Proof.
  intros Hreach result.
  assert (result.1.1 = F64.lt (score_of st participantAddress) (F64.of_Z 40))
    as Hres.
  { subst result. rewrite CheckReputationPenalty_eq. simpl.
    unfold score_of, ReputationPenaltyThreshold.
    destruct (state st !! participantAddress) as [repJSON|] eqn:Hst.
    - by rewrite (ReadReputationScore_stored _ _ _ Hreach Hst).
    - by rewrite (ReadReputationScore_absent _ _ Hst). }
  repeat split.
  - by rewrite Hres.
  - by rewrite Hres.
  - intros H40. rewrite Hres, H40. apply F64_lt_irrefl.
  - subst result. by rewrite CheckReputationPenalty_eq.
Qed.

(** C8, as amended. [ReadEnergyAsset] fails with the does-not-exist error
    exactly when no record is stored under [tokenID] or the read of the
    store fails; when a record is stored and readable it returns what
    [json.Unmarshal] made of it, with the decoding error, which is an
    error of another kind; and it never changes the stub. *)
Theorem ReadEnergyAsset_failure_kinds tokenID st :
  let result := ReadEnergyAsset tokenID st in
  (result.1 = (None, Some (ErrNotFound tokenID)) ↔
     state st !! tokenID = None ∨ get_failure st tokenID ≠ None) ∧
  (∀ assetJSON,
     get_failure st tokenID = None → state st !! tokenID = Some assetJSON →
     let decoded : EnergyAsset * option string := Unmarshal assetJSON in
     result.1 = (Some decoded.1, JSONError <$> decoded.2)) ∧
  (∀ msg, result.1.2 = Some (JSONError msg) → is_Some result.1.1) ∧
  result.2 = st.
Proof.
  intros result. subst result.
  unfold ReadEnergyAsset, bind, GetState.
  destruct (get_failure st tokenID) as [msg|] eqn:Hget; simpl.
  { repeat split; try done; auto. }
  destruct (state st !! tokenID) as [assetJSON|] eqn:Hst; simpl.
  - unfold json_Unmarshal. simpl.
    destruct (Unmarshal assetJSON) as [asset err] eqn:Hdecode. simpl.
    repeat split; try done.
    + by intros [|].
    + intros ? _ [= <-]. by rewrite Hdecode.
  - repeat split; try done; auto.
Qed.


(** C10. When buyer and seller pass their gates and the read of
    [tokenID] in the existence check fails, [CreateEnergyAsset] fails
    with the already-exists error, stored record or not, and no stub
    error reaches the caller. *)
Theorem CreateEnergyAsset_folds_store_failure
    tokenID buyerAddress sellerAddress energyAmount transactionPrice
    timestamp buyerDeposit sellerDeposit st msg :
  passes st buyerAddress → passes st sellerAddress →
  (EnergyAssetExists tokenID st).1.2 = Some (StubError msg) →
  CreateEnergyAsset tokenID buyerAddress sellerAddress energyAmount
    transactionPrice timestamp buyerDeposit sellerDeposit st
  = (Some (ErrAlreadyExists tokenID), st).
Proof.
  intros Hb Hs Herr. rewrite create_past_gates by done.
  rewrite EnergyAssetExists_eq in Herr. simpl in Herr. rewrite Herr.
  by rewrite orb_true_r.
Qed.


(** An execution that returns before the put: nothing was called and
    nothing changed. *)
Local Ltac quiet :=
  simpl; split_and!;
  [ exists []; split; [by rewrite app_nil_r | simpl; lia]
  | done | done | done ].

(** C5. [CreateEnergyAsset] calls [PutState] at most once; a failing
    execution leaves the world state unchanged; when it fails with
    reputation-too-low, already-exists or an encoding error it has made
    no call to [PutState] at all and the stub is as it was; and when it
    succeeds its one put is the encoded new record under [tokenID],
    every other key keeping what it held. *)
Theorem CreateEnergyAsset_atomic
    tokenID buyerAddress sellerAddress energyAmount transactionPrice
    timestamp buyerDeposit sellerDeposit st :
  let result :=
    CreateEnergyAsset tokenID buyerAddress sellerAddress energyAmount
      transactionPrice timestamp buyerDeposit sellerDeposit st in
  let asset :=
    created tokenID buyerAddress sellerAddress energyAmount
      transactionPrice timestamp buyerDeposit sellerDeposit in
  (∃ calls, puts result.2 = puts st ++ calls ∧ (length calls ≤ 1)%nat) ∧
  (result.1 ≠ None → state result.2 = state st) ∧
  (result.1 = Some (ErrBuyerReputationTooLow buyerAddress) ∨
   result.1 = Some (ErrSellerReputationTooLow sellerAddress) ∨
   result.1 = Some (ErrAlreadyExists tokenID) ∨
   (∃ msg, result.1 = Some (JSONError msg)) → result.2 = st) ∧
  (result.1 = None →
     ∃ assetJSON, Marshal asset = inl assetJSON ∧
       puts result.2 = puts st ++ [(tokenID, Some assetJSON)] ∧
       ∀ key, key ≠ tokenID → state result.2 !! key = state st !! key).
Proof.
  intros result asset. subst result asset.
  rewrite CreateEnergyAsset_decision_list.
  destruct (decide (passes st buyerAddress)); [|quiet].
  destruct (decide (passes st sellerAddress)); [|quiet].
  destruct (negb _ || failed _); [quiet|].
  destruct (Marshal _) as [assetJSON|msg] eqn:Henc; [|quiet].
  pose proof (PutState_cases tokenID (Some assetJSON) st)
    as (Hputs & _ & _ & Hput).
  destruct (PutState tokenID (Some assetJSON) st) as [[e|] st1]; simpl in *.
  - destruct Hput as (Hstate & msg & ->).
    split_and!; try done.
    + eexists. split; [done|]. simpl. lia.
    + intros [H|[H|[H|[? H]]]]; discriminate H.
  - destruct Hput as (_ & _ & Hstate).
    split_and!; try done.
    + eexists. split; [done|]. simpl. lia.
    + intros [H|[H|[H|[? H]]]]; discriminate H.
    + intros _. exists assetJSON. split_and!; [done..|].
      intros key Hkey. rewrite Hstate.
      destruct assetJSON;
        [by rewrite lookup_delete_ne|by rewrite lookup_insert_ne].
Qed.


End Properties.

(** ** The reference codec meets the contracts *)

Lemma pos_of_bytes_of_pos (p : positive) :
  Reference.pos_of_bytes (Reference.bytes_of_pos p) = Some p.
Proof. induction p as [p IH|p IH|]; simpl; by rewrite ?IH. Qed.

Lemma codec_round_trips {T} `{Countable T} (zero : T) numbers (v : T) :
  @round_trips T (Reference.codec zero numbers) v.
Proof.
  intros b. simpl. destruct (forallb _ _); [|done].
  intros [= <-]. split; [done|].
  by rewrite pos_of_bytes_of_pos; simpl; rewrite decode_encode.
Qed.

Lemma reference_refuses_non_finite : @refuses_non_finite Reference.reputation.
Proof.
  intros r b. simpl. rewrite andb_true_r.
  by destruct (F64.is_finite (Score r)).
Qed.


(** ** The statements on the seeded ledger *)

Section Scenarios.

#[local] Existing Instances
  Reference.asset Reference.account Reference.reputation.

Import Scenario.

(** *** The ledger behaves as the contract's own scenarios say *)

(** [InitLedger] makes five puts but leaves three keys: accounts and
    reputations share the flat key space, so the reputation of [buyer1]
    replaces its account. *)
Example InitLedger_seeds :
  (InitLedger Reference.genesis).1 = None ∧
  length (puts seeded) = 5%nat ∧
  size (state seeded) = 3%nat ∧
  (ReadReputationScore "buyer1" seeded).1
    = (mkReputation "buyer1" (F64.of_Z 80), None) ∧
  (ReadReputationScore "seller1" seeded).1
    = (mkReputation "seller1" (F64.of_Z 85), None).
Proof. by vm_compute. Qed.

Example update_minus_200_gives_0 :
  (ReadReputationScore "buyer1"
     (UpdateReputationScore "buyer1" (F64.of_Z (-200)) seeded).2).1
  = (mkReputation "buyer1" (F64.of_Z 0), None).
Proof. by vm_compute. Qed.

Example update_plus_1000_gives_100 :
  (ReadReputationScore "buyer1"
     (UpdateReputationScore "buyer1" (F64.of_Z 1000) seeded).2).1
  = (mkReputation "buyer1" (F64.of_Z 100), None).
Proof. by vm_compute. Qed.

(** A score of exactly 40 passes the gate. *)
Example score_40_is_not_penalized :
  (CheckReputationPenalty "buyer1"
     (UpdateReputationScore "buyer1" (F64.of_Z (-40)) seeded).2).1
  = (false, None).
Proof. by vm_compute. Qed.

Example create_energy2_then_exists :
  (CreateEnergyAsset "energy2" "buyer1" "seller1" five quarter noon five five
     seeded).1 = None ∧
  (EnergyAssetExists "energy2"
     (CreateEnergyAsset "energy2" "buyer1" "seller1" five quarter noon
        five five seeded).2).1 = (true, None).
Proof. by vm_compute. Qed.

Example read_missing_is_NotFound :
  (ReadEnergyAsset "missing" seeded).1 = (None, Some (ErrNotFound "missing")).
Proof. by vm_compute. Qed.

(** A NaN delta: the comparisons of the clamp are both false, the encoder
    refuses the record, its error is dropped, and the put of nil bytes
    succeeds and removes the stored record. *)
Example update_by_nan_erases_the_record :
  (UpdateReputationScore "buyer1" S754_nan seeded).1 = None ∧
  state (UpdateReputationScore "buyer1" S754_nan seeded).2 !! "buyer1" = None.
Proof. by vm_compute. Qed.

(** *** Witnesses *)

(** [buyer1] at 30 is turned away although [seller1], at 25, would be
    too, and although [energy1] is taken. *)
Lemma CreateEnergyAsset_buyer_checked_first_witness :
  CreateEnergyAsset "energy1" "buyer1" "seller1" five quarter noon five five
    disgraced
  = (Some (ErrBuyerReputationTooLow "buyer1"), disgraced).
Proof.
  apply CreateEnergyAsset_buyer_checked_first. vm_compute. reflexivity.
Defined.

(** [buyer1] at 80 and [seller1] at 85 cannot create [energy1] again. *)
Lemma CreateEnergyAsset_rejects_taken_tokenID_witness :
  ∃ recorded,
    state seeded !! "energy1" = Some recorded ∧
    CreateEnergyAsset "energy1" "buyer1" "seller1" five quarter noon
      five five seeded
    = (Some (ErrAlreadyExists "energy1"), seeded) ∧
    state (CreateEnergyAsset "energy1" "buyer1" "seller1" five quarter noon
             five five seeded).2 !! "energy1" = Some recorded.
Proof.
  eexists. split; [vm_compute; reflexivity|].
  eapply CreateEnergyAsset_rejects_taken_tokenID;
    vm_compute; reflexivity.
Defined.

Lemma ReadReputationScore_default_witness :
  ReadReputationScore "newcomer" seeded
  = ((mkReputation "newcomer" (F64.of_Z 50), None), seeded).
Proof.
  apply ReadReputationScore_default. vm_compute. reflexivity.
Defined.

Lemma CheckReputationPenalty_below_threshold_witness :
  ((CheckReputationPenalty "buyer1" disgraced).1.1 = true ↔
     F64.lt (score_of disgraced "buyer1") (F64.of_Z 40) = true) ∧
  (score_of disgraced "buyer1" = F64.of_Z 40 →
     (CheckReputationPenalty "buyer1" disgraced).1.1 = false) ∧
  (CheckReputationPenalty "buyer1" disgraced).2 = disgraced.
Proof.
  apply (CheckReputationPenalty_below_threshold "buyer1" disgraced).
  vm_compute. reflexivity.
Defined.


(** No record is stored under [energy2]; the failed read is reported as
    a duplicate. *)
Lemma CreateEnergyAsset_folds_store_failure_witness :
  state (unreachable "energy2" seeded) !! "energy2" = None ∧
  CreateEnergyAsset "energy2" "buyer1" "seller1" five quarter noon five five
    (unreachable "energy2" seeded)
  = (Some (ErrAlreadyExists "energy2"), unreachable "energy2" seeded).
Proof.
  split; [vm_compute; reflexivity|].
  eapply CreateEnergyAsset_folds_store_failure; vm_compute; reflexivity.
Defined.



(** *** Counterexamples *)

(** C8, as stated, fails: [energy1] is stored, the read of the store
    fails, and [ReadEnergyAsset] reports that the asset does not exist. *)
Lemma ReadEnergyAsset_store_failure_is_NotFound :
  is_Some (state (unreachable "energy1" seeded) !! "energy1") ∧
  is_Some (get_failure (unreachable "energy1" seeded) "energy1") ∧
  (ReadEnergyAsset "energy1" (unreachable "energy1" seeded)).1
    = (None, Some (ErrNotFound "energy1")) ∧
  ¬ ((ReadEnergyAsset "energy1" (unreachable "energy1" seeded)).1.2
       = Some (ErrNotFound "energy1")
     ↔ state (unreachable "energy1" seeded) !! "energy1" = None).
Proof.
  assert (is_Some (state (unreachable "energy1" seeded) !! "energy1")) as Hs.
  { vm_compute. eauto. }
  split_and!; [done|vm_compute; eauto|vm_compute; reflexivity|].
  intros [Hnot _]. destruct Hs as [b Hb].
  rewrite Hnot in Hb; [done|]. vm_compute. reflexivity.
Qed.


End Scenarios.


(** ** Further properties of the contract *)

Section Further.

Context `{JSON_EnergyAsset : JSON EnergyAsset}.
Context `{JSON_TokenAccount : JSON TokenAccount}.
Context `{JSON_Reputation : JSON Reputation}.

(** *** The clamp *)

(** X12. A score that already lies in [[0,100]] goes through the clamp
    unchanged. *)
Theorem clamp_keeps_scores_in_range (x : F64.t) :
  F64.in_0_100 x → clamp x = x.
Proof.
  intros [Hlow Hhigh]. unfold clamp, F64.gt.
  change (SFltb (F64.of_Z 100) x) with (F64.lt (F64.of_Z 100) x).
  by rewrite (F64_le_not_lt _ _ Hhigh), (F64_le_not_lt _ _ Hlow).
Qed.

(** X13. Clamping twice is clamping once, for every float64, NaN and the
    infinities included. *)
Theorem clamp_idempotent (x : F64.t) : clamp (clamp x) = clamp x.
Proof.
  assert (clamp (F64.of_Z 100) = F64.of_Z 100) as H100 by by vm_compute.
  assert (clamp (F64.of_Z 0) = F64.of_Z 0) as H0 by by vm_compute.
  unfold clamp at 2 3.
  destruct (F64.gt x (F64.of_Z 100)) eqn:Hgt; [done|].
  destruct (F64.lt x (F64.of_Z 0)) eqn:Hlt; [done|].
  unfold clamp. by rewrite Hgt, Hlt.
Qed.

(** *** The existence check *)

(** X1. [EnergyAssetExists] answers [(true, nil)] exactly when some bytes
    are stored under [tokenID] and the read succeeds; when the read fails
    it answers false together with the stub's error; it never changes the
    stub. *)
Theorem EnergyAssetExists_answers tokenID st :
  let result := EnergyAssetExists tokenID st in
  (result.1 = (true, None) ↔
     is_Some (state st !! tokenID) ∧ get_failure st tokenID = None) ∧
  (∀ msg, get_failure st tokenID = Some msg →
          result.1 = (false, Some (StubError msg))) ∧
  (get_failure st tokenID = None → state st !! tokenID = None →
   result.1 = (false, None)) ∧
  result.2 = st.
Proof.
  intros result. subst result. rewrite EnergyAssetExists_eq. simpl.
  unfold GetState.
  destruct (get_failure st tokenID) as [msg|] eqn:Hget; simpl.
  { split_and!; try done.
    - split; [done|]. by intros [_ ?].
    - by intros ? [= <-]. }
  destruct (state st !! tokenID) as [b|] eqn:Hst; simpl;
    (split_and!; try done).
  split; [done|]. by intros [[? ?] _].
Qed.

(** *** The reputation gate *)

(** X2. A participant with no stored record, or whose record cannot be
    read because the store fails, is not penalized: the default score 50
    is above the threshold, and no error is reported. *)
Theorem CheckReputationPenalty_lets_unknown_pass participantAddress st :
  state st !! participantAddress = None ∨
  is_Some (get_failure st participantAddress) →
  CheckReputationPenalty participantAddress st = ((false, None), st).
Proof.
  intros Hunknown. rewrite CheckReputationPenalty_eq.
  assert (ReadReputationScore participantAddress st
          = ((default_reputation participantAddress, None), st)) as ->.
  { destruct Hunknown as [Habs|[msg Hget]].
    - by apply ReadReputationScore_absent.
    - by apply (ReadReputationScore_failure _ _ msg). }
  by vm_compute.
Qed.

(** X3. The seller's gate comes second: when the buyer passes and the
    score read for the seller is below 40, [CreateEnergyAsset] fails with
    the seller's reputation-too-low error and leaves the stub as it was,
    whether or not [tokenID] is taken. *)
Theorem CreateEnergyAsset_seller_checked_second
    tokenID buyerAddress sellerAddress energyAmount transactionPrice
    timestamp buyerDeposit sellerDeposit st :
  passes st buyerAddress →
  F64.lt (Score (ReadReputationScore sellerAddress st).1.1)
         (F64.of_Z 40) = true →
  CreateEnergyAsset tokenID buyerAddress sellerAddress energyAmount
    transactionPrice timestamp buyerDeposit sellerDeposit st
  = (Some (ErrSellerReputationTooLow sellerAddress), st).
Proof.
  intros Hbuyer Hlow. apply create_seller_rejected; [done|].
  rewrite CheckReputationPenalty_eq. simpl.
  unfold ReputationPenaltyThreshold. rewrite Hlow. congruence.
Qed.

(** X4. A reputation record that does not decode is reported as a low
    reputation: when the read of the buyer's record returns an error,
    [CreateEnergyAsset] fails with the buyer's reputation-too-low error,
    whatever score the decoder left in the record, and the decoding error
    itself does not reach the caller. *)
Theorem CreateEnergyAsset_folds_decode_error
    tokenID buyerAddress sellerAddress energyAmount transactionPrice
    timestamp buyerDeposit sellerDeposit st e :
  (ReadReputationScore buyerAddress st).1.2 = Some e →
  CreateEnergyAsset tokenID buyerAddress sellerAddress energyAmount
    transactionPrice timestamp buyerDeposit sellerDeposit st
  = (Some (ErrBuyerReputationTooLow buyerAddress), st).
Proof.
  intros Herr. apply create_buyer_rejected.
  rewrite CheckReputationPenalty_eq. simpl. rewrite Herr. congruence.
Qed.

(** *** Puts, and the two writers in terms of them *)

Lemma PutState_accepted key value st :
  key ≠ "" → put_failure st key = None →
  PutState key value st =
    (None, mkStub (put_effect key value (state st))
                  (puts st ++ [(key, value)])
                  (get_failure st) (put_failure st)).
Proof.
  intros Hkey Hput. unfold PutState, put_effect.
  destruct (decide (key = "")); [done|]. by rewrite Hput.
Qed.

Lemma PutState_ok_iff key value st :
  (PutState key value st).1 = None ↔ key ≠ "" ∧ put_failure st key = None.
Proof.
  split.
  - pose proof (PutState_cases key value st) as (_ & _ & _ & Hput).
    intros Hok. simpl in Hput. rewrite Hok in Hput. by destruct Hput as (? & ? & _).
  - intros [Hkey Hput]. by rewrite PutState_accepted.
Qed.

Lemma PutState_refused key value st e :
  (PutState key value st).1 = Some e →
  state (PutState key value st).2 = state st ∧
  ∃ msg, e = StubError msg ∧ (key = "" ∨ put_failure st key = Some msg).
Proof.
  unfold PutState.
  destruct (decide (key = "")) as [->|Hkey]; simpl.
  - intros [= <-]. by eauto.
  - destruct (put_failure st key) as [msg|] eqn:Hput; simpl; [|done].
    intros [= <-]. by eauto.
Qed.

Lemma UpdateReputationScore_eq participantAddress delta st :
  UpdateReputationScore participantAddress delta st =
    match (ReadReputationScore participantAddress st).1.2 with
    | Some e => (Some e, st)
    | None =>
        PutState participantAddress
          (json_Marshal
             (updated (ReadReputationScore participantAddress st).1.1 delta)).1
          st
    end.
Proof.
  unfold UpdateReputationScore, bind, updated.
  pose proof (ReadReputationScore_stub participantAddress st) as Hstub.
  destruct (ReadReputationScore participantAddress st) as [[rep err] st0].
  simpl in *. subst st0. destruct err as [e|]; simpl; [done|].
  by destruct (json_Marshal _).
Qed.

Lemma json_Marshal_bytes `{JSON T} (v : T) :
  (json_Marshal v).1 = match Marshal v with inl b => Some b | inr _ => None end.
Proof. unfold json_Marshal. by destruct (Marshal v). Qed.

(** *** CreateEnergyAsset: success, errors, uniqueness *)

(** X5. [CreateEnergyAsset] succeeds exactly when buyer and seller pass
    the gate, the read of [tokenID] succeeds and finds nothing, the new
    record can be encoded, [tokenID] is not the empty string and the host
    accepts the put. *)
Theorem CreateEnergyAsset_succeeds_iff
    tokenID buyerAddress sellerAddress energyAmount transactionPrice
    timestamp buyerDeposit sellerDeposit st :
  (CreateEnergyAsset tokenID buyerAddress sellerAddress energyAmount
     transactionPrice timestamp buyerDeposit sellerDeposit st).1 = None
  ↔
  passes st buyerAddress ∧ passes st sellerAddress ∧
  get_failure st tokenID = None ∧ state st !! tokenID = None ∧
  (∃ assetJSON,
     Marshal (created tokenID buyerAddress sellerAddress energyAmount
                transactionPrice timestamp buyerDeposit sellerDeposit)
     = inl assetJSON) ∧
  tokenID ≠ "" ∧ put_failure st tokenID = None.
Proof.
  rewrite CreateEnergyAsset_decision_list.
  destruct (decide (passes st buyerAddress)) as [Hb|Hb];
    [|split; [done|by intros (? & _)]].
  destruct (decide (passes st sellerAddress)) as [Hs|Hs];
    [|split; [done|by intros (_ & ? & _)]].
  unfold GetState.
  destruct (get_failure st tokenID) as [msg|] eqn:Hget; simpl;
    [split; [done|by intros (_ & _ & ? & _)]|].
  destruct (state st !! tokenID) as [b|] eqn:Hst; simpl;
    [split; [done|by intros (_ & _ & _ & ? & _)]|].
  destruct (Marshal _) as [assetJSON|msg] eqn:Henc.
  - rewrite PutState_ok_iff. split; [intros []|intros (_ & _ & _ & _ & _ & ?)];
      by eauto 10.
  - split; [done|]. by intros (_ & _ & _ & _ & [? ?] & _).
Qed.

(** X7. Every error of [CreateEnergyAsset] is one of five: the buyer's or
    the seller's reputation-too-low error, the already-exists error, the
    encoder's error on the new record, or the error of the put, which the
    stub raises for an empty [tokenID] or the host for this key.  An
    error of a read of the store is never among them. *)
Theorem CreateEnergyAsset_error_kinds
    tokenID buyerAddress sellerAddress energyAmount transactionPrice
    timestamp buyerDeposit sellerDeposit st e :
  (CreateEnergyAsset tokenID buyerAddress sellerAddress energyAmount
     transactionPrice timestamp buyerDeposit sellerDeposit st).1 = Some e →
  e = ErrBuyerReputationTooLow buyerAddress ∨
  e = ErrSellerReputationTooLow sellerAddress ∨
  e = ErrAlreadyExists tokenID ∨
  (∃ msg, e = JSONError msg ∧
          Marshal (created tokenID buyerAddress sellerAddress energyAmount
                     transactionPrice timestamp buyerDeposit sellerDeposit)
          = inr msg) ∨
  (∃ msg, e = StubError msg ∧
          (tokenID = "" ∨ put_failure st tokenID = Some msg)).
Proof.
  rewrite CreateEnergyAsset_decision_list.
  destruct (decide (passes st buyerAddress)); [|intros [= <-]; by auto].
  destruct (decide (passes st sellerAddress)); [|intros [= <-]; by auto].
  destruct (negb _ || failed _); [intros [= <-]; by auto|].
  destruct (Marshal _) as [assetJSON|msg] eqn:Henc.
  - intros Hput. apply PutState_refused in Hput as (_ & msg & -> & Hwhy).
    do 4 right. by eauto.
  - intros [= <-]. do 3 right. left. by eauto.
Qed.


(** *** UpdateReputationScore: success, frame, read-back *)

Lemma UpdateReputationScore_ok_iff participantAddress delta st :
  (UpdateReputationScore participantAddress delta st).1 = None ↔
  (ReadReputationScore participantAddress st).1.2 = None ∧
  participantAddress ≠ "" ∧
  put_failure st participantAddress = None.
Proof.
  rewrite UpdateReputationScore_eq.
  destruct ((ReadReputationScore participantAddress st).1.2) as [e|].
  - split; [done|by intros [? _]].
  - rewrite PutState_ok_iff. by intuition.
Qed.

(** X8. [UpdateReputationScore] succeeds exactly when the read of the
    record raises no decoding error, the address is not the empty string
    and the host accepts the put.  Whether the updated record could be
    encoded plays no part: the encoder's error is dropped. *)
Theorem UpdateReputationScore_succeeds_iff participantAddress delta st :
  (UpdateReputationScore participantAddress delta st).1 = None ↔
  (ReadReputationScore participantAddress st).1.2 = None ∧
  participantAddress ≠ "" ∧
  put_failure st participantAddress = None.
Proof.
  rewrite UpdateReputationScore_eq.
  destruct ((ReadReputationScore participantAddress st).1.2) as [e|].
  - split; [done|by intros [? _]].
  - rewrite PutState_ok_iff. by intuition.
Qed.

(** X10. [UpdateReputationScore] touches one key: every other key keeps
    what it held, at most one put is made and it is on the participant's
    key, a failing update leaves the world state as it was, and an update
    that fails on a decoding error has made no put at all. *)
Theorem UpdateReputationScore_touches_one_key participantAddress delta st :
  let result := UpdateReputationScore participantAddress delta st in
  (∀ key, key ≠ participantAddress →
          state result.2 !! key = state st !! key) ∧
  (∃ calls, puts result.2 = puts st ++ calls ∧ (length calls ≤ 1)%nat ∧
            ∀ call, call ∈ calls → call.1 = participantAddress) ∧
  (result.1 ≠ None → state result.2 = state st) ∧
  (∀ msg, result.1 = Some (JSONError msg) → result.2 = st).
Proof.
  intros result. subst result. rewrite UpdateReputationScore_eq.
  destruct ((ReadReputationScore participantAddress st).1.2) as [e|]; simpl.
  { split_and!; try done. exists []. rewrite app_nil_r.
    split_and!; [done|simpl; lia|]. by intros ? ?%elem_of_nil. }
  set (value := (json_Marshal _).1).
  pose proof (PutState_cases participantAddress value st)
    as (Hputs & _ & _ & Hput).
  destruct (PutState participantAddress value st) as [[e|] st1] eqn:Hrun;
    simpl in *.
  - destruct Hput as (Hstate & msg & ->). split_and!.
    + intros key _. by rewrite Hstate.
    + eexists. split_and!; [done|simpl; lia|]. by intros ? ->%list_elem_of_singleton.
    + done.
    + done.
  - destruct Hput as (_ & _ & Hstate). split_and!.
    + intros key Hkey. rewrite Hstate.
      destruct value as [[|c b]|];
        by rewrite ?lookup_delete_ne, ?lookup_insert_ne.
    + eexists. split_and!; [done|simpl; lia|]. by intros ? ->%list_elem_of_singleton.
    + done.
    + done.
Qed.

(** X9. Update, then read: when the record read for the participant is
    [rep], the updated record is encoded and the codec round-trips it,
    then after a successful update a read of that participant, on any
    readable host holding the resulting state, returns exactly the updated
    record: the address found in the stored record, not the key, and the
    clamped sum as score. *)
Theorem UpdateReputationScore_then_ReadReputationScore
    participantAddress delta st rep repJSON st' :
  (ReadReputationScore participantAddress st).1 = (rep, None) →
  Marshal (updated rep delta) = inl repJSON →
  round_trips (updated rep delta) →
  (UpdateReputationScore participantAddress delta st).1 = None →
  state st' = state (UpdateReputationScore participantAddress delta st).2 →
  get_failure st' participantAddress = None →
  ReadReputationScore participantAddress st'
  = ((mkReputation (ParticipantAddress rep)
                   (clamp (F64.add (Score rep) delta)), None), st').
Proof.
  intros Hread Henc Hcodec Hok Hsame Hget.
  destruct (Hcodec _ Henc) as [Hne Hdec].
  apply UpdateReputationScore_ok_iff in Hok as (_ & Hkey & Hput).
  rewrite UpdateReputationScore_eq, Hread in Hsame. simpl in Hsame.
  rewrite json_Marshal_bytes, Henc, PutState_accepted in Hsame by done.
  simpl in Hsame.
  assert (state st' !! participantAddress = Some repJSON) as Hst.
  { rewrite Hsame. destruct repJSON; [done|]. simpl.
    by rewrite lookup_insert_eq. }
  rewrite (ReadReputationScore_stored _ _ _ Hget Hst). simpl.
  by rewrite Hdec.
Qed.

(** X11. When the sum of the score read and the delta is NaN, a delta of
    NaN for one, and the encoder refuses non-finite numbers, a successful
    update removes the participant's record: nothing is stored under the
    key afterwards, and a later read returns the default score 50. *)
Theorem UpdateReputationScore_nan_erases participantAddress delta st st' :
  refuses_non_finite →
  F64.is_nan
    (F64.add (Score (ReadReputationScore participantAddress st).1.1) delta)
    = true →
  (UpdateReputationScore participantAddress delta st).1 = None →
  state st' = state (UpdateReputationScore participantAddress delta st).2 →
  state st' !! participantAddress = None ∧
  ReadReputationScore participantAddress st'
  = ((mkReputation participantAddress (F64.of_Z 50), None), st').
Proof.
  intros Hfinite Hnan Hok Hsame.
  assert (state st' !! participantAddress = None) as Hgone.
  { apply UpdateReputationScore_ok_iff in Hok as (Hread & Hkey & Hput).
    rewrite UpdateReputationScore_eq, Hread in Hsame.
    rewrite json_Marshal_bytes, PutState_accepted in Hsame by done.
    simpl in Hsame. rewrite Hsame.
    destruct (Marshal _) as [repJSON|msg] eqn:Henc;
      [|by apply lookup_delete_eq].
    apply Hfinite in Henc. simpl in Henc.
    assert (F64.is_nan (clamp (F64.add
              (Score (ReadReputationScore participantAddress st).1.1) delta))
            = true) as Hclamped by by rewrite clamp_nan.
    by destruct (clamp _). }
  split; [done|]. by apply ReadReputationScore_absent.
Qed.

(** *** The loops of InitLedger *)

Section put_all_facts.

Context {T : Type} `{JSON_T : JSON T} (key : T → string).

(** A record that the loop can write on [st]: it encodes, its key is not
    empty and the host accepts puts on it. *)
Definition writable (st : Stub) (record : T) : Prop :=
  (∃ recordJSON, Marshal record = inl recordJSON) ∧
  key record ≠ "" ∧ put_failure st (key record) = None.

Definition write (world : gmap string bytes) (record : T)
  : gmap string bytes :=
  put_effect (key record) (json_Marshal record).1 world.

Definition call (record : T) : string * option bytes :=
  (key record, (json_Marshal record).1).

Lemma put_all_cons record rest st :
  put_all key (record :: rest) st =
    match Marshal record with
    | inr msg => (Some (JSONError msg), st)
    | inl recordJSON =>
        if failed (PutState (key record) (Some recordJSON) st).1
        then PutState (key record) (Some recordJSON) st
        else put_all key rest (PutState (key record) (Some recordJSON) st).2
    end.
Proof.
  simpl. unfold json_Marshal, bind, ret.
  destruct (Marshal record) as [recordJSON|msg]; simpl; [|done].
  destruct (PutState (key record) (Some recordJSON) st) as [[e|] st1]; done.
Qed.

Lemma put_all_writes records st :
  Forall (writable st) records →
  put_all key records st =
    (None, mkStub (foldl write (state st) records)
                  (puts st ++ map call records)
                  (get_failure st) (put_failure st)).
Proof.
  revert st. induction records as [|record rest IH]; intros st Hall.
  - simpl. unfold ret. rewrite app_nil_r. by destruct st.
  - apply Forall_cons in Hall as [([recordJSON Henc] & Hkey & Hput) Hrest].
    assert (write (state st) record
            = put_effect (key record) (Some recordJSON) (state st)) as Hw.
    { unfold write. by rewrite json_Marshal_bytes, Henc. }
    assert (call record = (key record, Some recordJSON)) as Hc.
    { unfold call. by rewrite json_Marshal_bytes, Henc. }
    rewrite put_all_cons, Henc, PutState_accepted by done.
    cbn [failed fst snd]. rewrite IH.
    + cbn [state puts get_failure put_failure foldl map].
      by rewrite Hw, Hc, <- app_assoc.
    + eapply Forall_impl; [exact Hrest|]. by intros r (? & ? & ?).
Qed.

Lemma put_all_ok_iff records st :
  (put_all key records st).1 = None ↔ Forall (writable st) records.
Proof.
  split; [|intros Hall; by rewrite put_all_writes].
  revert st. induction records as [|record rest IH]; intros st; [done|].
  rewrite put_all_cons.
  destruct (Marshal record) as [recordJSON|msg] eqn:Henc; [|done].
  destruct ((PutState (key record) (Some recordJSON) st).1) as [e|] eqn:Hput;
    simpl; [by rewrite Hput|].
  apply PutState_ok_iff in Hput as [Hkey Hput].
  rewrite PutState_accepted by done. simpl. intros Hrest%IH.
  apply Forall_cons. split; [by unfold writable; eauto|].
  eapply Forall_impl; [exact Hrest|]. by intros r (? & ? & ?).
Qed.

(** Whether it completes or stops at an error, the loop keeps the host's
    failures, leaves alone every key that is not the key of a record, and
    makes at most one put per record. *)
Lemma put_all_frame records st :
  let result := put_all key records st in
  get_failure result.2 = get_failure st ∧
  put_failure result.2 = put_failure st ∧
  (∀ k, (∀ record, record ∈ records → key record ≠ k) →
        state result.2 !! k = state st !! k) ∧
  ∃ calls, puts result.2 = puts st ++ calls ∧
           (length calls ≤ length records)%nat.
Proof.
  revert st. induction records as [|record rest IH]; intros st.
  { simpl. split_and!; try done. exists []. by rewrite app_nil_r. }
  cbv zeta. rewrite put_all_cons.
  destruct (Marshal record) as [recordJSON|msg] eqn:Henc; simpl.
  2:{ split_and!; try done. exists []. rewrite app_nil_r. split; [done|simpl; lia]. }
  pose proof (PutState_cases (key record) (Some recordJSON) st)
    as (Hputs & Hgf & Hpf & Hput).
  destruct (PutState (key record) (Some recordJSON) st) as [[e|] st1];
    simpl in *.
  - destruct Hput as (Hstate & _). split_and!; try done.
    + intros k _. by rewrite Hstate.
    + eexists. split; [done|simpl; lia].
  - destruct Hput as (_ & _ & Hstate).
    destruct (IH st1) as (Hgf' & Hpf' & Hframe & calls & Hcalls & Hlen).
    split_and!; [congruence|congruence| |].
    + intros k Hk. rewrite Hframe, Hstate.
      * assert (key record ≠ k) by (apply Hk; by left).
        destruct recordJSON;
          by rewrite ?lookup_delete_ne, ?lookup_insert_ne.
      * intros r Hr. apply Hk. by right.
    + exists ((key record, Some recordJSON) :: calls).
      rewrite Hcalls, Hputs, <- app_assoc. split; [done|simpl; lia].
Qed.

End put_all_facts.

Lemma InitLedger_eq st :
  InitLedger st =
    let accounts := put_all AccountID seed_accounts st in
    if failed accounts.1 then accounts
    else
      let assets := put_all TokenID seed_assets accounts.2 in
      if failed assets.1 then assets
      else put_all ParticipantAddress seed_reputations assets.2.
Proof.
  unfold InitLedger, bind, ret. cbv zeta.
  fold seed_accounts seed_assets seed_reputations.
  destruct (put_all AccountID seed_accounts st) as [[e|] st1];
    cbn [failed fst snd]; [done|].
  destruct (put_all TokenID seed_assets st1) as [[e|] st2];
    cbn [failed fst snd]; [done|].
  by destruct (put_all ParticipantAddress seed_reputations st2) as [[e|] st3].
Qed.

Lemma lookup_put_effect_eq key b world :
  b ≠ [] → put_effect key (Some b) world !! key = Some b.
Proof. destruct b; [done|]. intros _. apply lookup_insert_eq. Qed.

Lemma lookup_put_effect_ne key k value world :
  key ≠ k → put_effect key value world !! k = world !! k.
Proof.
  intros Hne. unfold put_effect.
  destruct value as [[|c b]|];
    by rewrite ?lookup_delete_ne, ?lookup_insert_ne.
Qed.

Lemma writable_same_host {T} `{JSON T} (key : T → string) st st' record :
  put_failure st' = put_failure st →
  writable key st' record ↔ writable key st record.
Proof. unfold writable. by intros ->. Qed.

Lemma Forall_writable_same_host {T} `{JSON T} (key : T → string) st st' l :
  put_failure st' = put_failure st →
  Forall (writable key st') l ↔ Forall (writable key st) l.
Proof.
  intros Hsame. apply Forall_proper; [|done].
  intros record. by apply writable_same_host.
Qed.

(** The run of a successful [InitLedger], loop after loop. *)
Lemma InitLedger_run st :
  (InitLedger st).1 = None →
  Forall (writable AccountID st) seed_accounts ∧
  Forall (writable TokenID st) seed_assets ∧
  Forall (writable ParticipantAddress st) seed_reputations ∧
  InitLedger st =
    (None,
     mkStub
       (foldl (write ParticipantAddress)
          (foldl (write TokenID)
             (foldl (write AccountID) (state st) seed_accounts)
             seed_assets)
          seed_reputations)
       (puts st ++ map (call AccountID) seed_accounts
                ++ map (call TokenID) seed_assets
                ++ map (call ParticipantAddress) seed_reputations)
       (get_failure st) (put_failure st)).
Proof.
  rewrite InitLedger_eq. cbv zeta.
  destruct ((put_all AccountID seed_accounts st).1) as [e|] eqn:H1;
    cbn [failed]; [by rewrite H1|].
  apply put_all_ok_iff in H1 as H1'.
  rewrite (put_all_writes _ _ _ H1'). cbn [snd fst].
  set (st1 := mkStub _ _ _ _).
  destruct ((put_all TokenID seed_assets st1).1) as [e|] eqn:H2;
    cbn [failed]; [by rewrite H2|].
  apply put_all_ok_iff in H2 as H2'.
  rewrite (put_all_writes _ _ _ H2'). cbn [snd fst].
  set (st2 := mkStub _ _ _ _).
  intros H3. apply put_all_ok_iff in H3 as H3'.
  rewrite (put_all_writes _ _ _ H3').
  split_and!; [done|by apply (Forall_writable_same_host _ st st1)
              |by apply (Forall_writable_same_host _ st st2)|].
  subst st1 st2. cbn [state puts get_failure put_failure].
  by rewrite <- !app_assoc.
Qed.

(** *** InitLedger *)

(** X15. [InitLedger] succeeds exactly when every one of its five seed
    records can be written: it encodes, and the host accepts puts on its
    key. *)
Theorem InitLedger_succeeds_iff st :
  (InitLedger st).1 = None ↔
  Forall (writable AccountID st) seed_accounts ∧
  Forall (writable TokenID st) seed_assets ∧
  Forall (writable ParticipantAddress st) seed_reputations.
Proof.
  split; [by intros (? & ? & ? & _)%InitLedger_run|].
  intros (Haccounts & Hassets & Hreputations).
  rewrite InitLedger_eq. cbv zeta.
  rewrite (put_all_writes _ _ _ Haccounts). cbn [failed fst snd].
  rewrite put_all_writes by by apply (Forall_writable_same_host _ st).
  cbn [failed fst snd].
  by rewrite put_all_writes by by apply (Forall_writable_same_host _ st).
Qed.

(** X16. A successful [InitLedger] makes exactly five puts, in this order:
    the accounts of [buyer1] and [seller1], the asset [energy1], the
    reputations of [buyer1] and [seller1], each with the encoding of its
    record. *)
Theorem InitLedger_writes_in_order st :
  (InitLedger st).1 = None →
  ∃ account1 account2 asset1 reputation1 reputation2,
    Marshal buyer1_account = inl account1 ∧
    Marshal seller1_account = inl account2 ∧
    Marshal energy1_asset = inl asset1 ∧
    Marshal buyer1_reputation = inl reputation1 ∧
    Marshal seller1_reputation = inl reputation2 ∧
    puts (InitLedger st).2 =
      puts st ++ [ ("buyer1", Some account1); ("seller1", Some account2);
                   ("energy1", Some asset1);
                   ("buyer1", Some reputation1);
                   ("seller1", Some reputation2) ].
Proof.
  intros (Haccounts & Hassets & Hreputations & ->)%InitLedger_run.
  apply Forall_cons in Haccounts as [([a1 Ha1] & _) Haccounts].
  apply Forall_cons in Haccounts as [([a2 Ha2] & _) _].
  apply Forall_cons in Hassets as [([e1 He1] & _) _].
  apply Forall_cons in Hreputations as [([r1 Hr1] & _) Hreputations].
  apply Forall_cons in Hreputations as [([r2 Hr2] & _) _].
  exists a1, a2, e1, r1, r2. split_and!; try done.
  cbn [puts seed_accounts seed_assets seed_reputations map app].
  unfold call. rewrite !json_Marshal_bytes.
  cbn [AccountID TokenID ParticipantAddress].
  by rewrite Ha1, Ha2, He1, Hr1, Hr2.
Qed.

(** X14. Whether it succeeds or stops at an error, [InitLedger] leaves
    alone every key other than [buyer1], [seller1] and [energy1], and
    makes at most five puts. *)
Theorem InitLedger_touches_three_keys st :
  let result := InitLedger st in
  (∀ key, key ≠ "buyer1" → key ≠ "seller1" → key ≠ "energy1" →
          state result.2 !! key = state st !! key) ∧
  (∃ calls, puts result.2 = puts st ++ calls ∧ (length calls ≤ 5)%nat).
Proof.
  intros result. subst result. rewrite InitLedger_eq. cbv zeta.
  pose proof (put_all_frame AccountID seed_accounts st)
    as (_ & _ & Hf1 & c1 & Hc1 & Hl1).
  set (r1 := put_all AccountID seed_accounts st) in *.
  pose proof (put_all_frame TokenID seed_assets r1.2)
    as (_ & _ & Hf2 & c2 & Hc2 & Hl2).
  set (r2 := put_all TokenID seed_assets r1.2) in *.
  pose proof (put_all_frame ParticipantAddress seed_reputations r2.2)
    as (_ & _ & Hf3 & c3 & Hc3 & Hl3).
  set (r3 := put_all ParticipantAddress seed_reputations r2.2) in *.
  cbv zeta in *. simpl in Hl1, Hl2, Hl3.
  assert (∀ key, key ≠ "buyer1" → key ≠ "seller1" → key ≠ "energy1" →
            state r1.2 !! key = state st !! key ∧
            state r2.2 !! key = state r1.2 !! key ∧
            state r3.2 !! key = state r2.2 !! key) as Hframe.
  { intros key Hb Hs He. split_and!; [apply Hf1|apply Hf2|apply Hf3];
      intros record Hin;
      repeat (apply elem_of_cons in Hin as [->|Hin]; [by simpl|]);
      by apply elem_of_nil in Hin. }
  destruct (failed r1.1); [|destruct (failed r2.1)].
  - split; [intros key Hb Hs He; by destruct (Hframe key Hb Hs He)|].
    exists c1. split; [done|lia].
  - split.
    + intros key Hb Hs He.
      destruct (Hframe key Hb Hs He) as (-> & <- & _). done.
    + exists (c1 ++ c2).
      rewrite Hc2, Hc1, <- app_assoc, length_app. split; [done|lia].
  - split.
    + intros key Hb Hs He.
      destruct (Hframe key Hb Hs He) as (H1 & H2 & H3). congruence.
    + exists (c1 ++ c2 ++ c3).
      rewrite Hc3, Hc2, Hc1, <- !app_assoc, !length_app. split; [done|lia].
Qed.

(** The world state after a successful [InitLedger]. *)
Lemma InitLedger_state st :
  (InitLedger st).1 = None →
  ∃ account1 account2 asset1 reputation1 reputation2,
    Marshal buyer1_account = inl account1 ∧
    Marshal seller1_account = inl account2 ∧
    Marshal energy1_asset = inl asset1 ∧
    Marshal buyer1_reputation = inl reputation1 ∧
    Marshal seller1_reputation = inl reputation2 ∧
    state (InitLedger st).2 =
      put_effect "seller1" (Some reputation2)
        (put_effect "buyer1" (Some reputation1)
           (put_effect "energy1" (Some asset1)
              (put_effect "seller1" (Some account2)
                 (put_effect "buyer1" (Some account1) (state st))))).
Proof.
  intros (Haccounts & Hassets & Hreputations & ->)%InitLedger_run.
  apply Forall_cons in Haccounts as [([a1 Ha1] & _) Haccounts].
  apply Forall_cons in Haccounts as [([a2 Ha2] & _) _].
  apply Forall_cons in Hassets as [([e1 He1] & _) _].
  apply Forall_cons in Hreputations as [([r1 Hr1] & _) Hreputations].
  apply Forall_cons in Hreputations as [([r2 Hr2] & _) _].
  exists a1, a2, e1, r1, r2. split_and!; try done.
  cbn [snd state seed_accounts seed_assets seed_reputations foldl].
  unfold write. rewrite !json_Marshal_bytes.
  cbn [AccountID TokenID ParticipantAddress].
  by rewrite Ha1, Ha2, He1, Hr1, Hr2.
Qed.

(** X17. The seeds collide: accounts and reputations are written under
    the same keys, so after a successful [InitLedger] what is stored
    under [buyer1] and under [seller1] is the reputation record, and the
    account written first is gone. *)
Theorem InitLedger_reputations_replace_accounts st :
  (InitLedger st).1 = None →
  Marshal buyer1_reputation ≠ inl [] →
  Marshal seller1_reputation ≠ inl [] →
  ∃ reputation1 reputation2,
    Marshal buyer1_reputation = inl reputation1 ∧
    Marshal seller1_reputation = inl reputation2 ∧
    state (InitLedger st).2 !! "buyer1" = Some reputation1 ∧
    state (InitLedger st).2 !! "seller1" = Some reputation2.
Proof.
  intros (a1 & a2 & e1 & r1 & r2 & _ & _ & _ & Hr1 & Hr2 & ->)%InitLedger_state
         Hne1 Hne2.
  exists r1, r2. split_and!; [done..| |].
  - rewrite lookup_put_effect_ne by done.
    apply lookup_put_effect_eq. by intros ->.
  - apply lookup_put_effect_eq. by intros ->.
Qed.

(** X19. After a successful [InitLedger], with a codec that round-trips
    the two seeded reputations, [buyer1] reads as 80 and [seller1] as 85
    on any readable host holding the resulting state, and both pass the
    gate of [CreateEnergyAsset]. *)
Theorem InitLedger_then_ReadReputationScore st st' :
  round_trips buyer1_reputation → round_trips seller1_reputation →
  (InitLedger st).1 = None →
  state st' = state (InitLedger st).2 →
  get_failure st' "buyer1" = None → get_failure st' "seller1" = None →
  ReadReputationScore "buyer1" st'
    = ((mkReputation "buyer1" (F64.of_Z 80), None), st') ∧
  ReadReputationScore "seller1" st'
    = ((mkReputation "seller1" (F64.of_Z 85), None), st') ∧
  passes st' "buyer1" ∧ passes st' "seller1".
Proof.
  intros Hrt1 Hrt2
    (a1 & a2 & e1 & r1 & r2 & _ & _ & _ & Hr1 & Hr2 & Hstate)%InitLedger_state
    Hsame Hget1 Hget2.
  destruct (Hrt1 _ Hr1) as [Hne1 Hdec1], (Hrt2 _ Hr2) as [Hne2 Hdec2].
  assert (state st' !! "buyer1" = Some r1) as Hst1.
  { rewrite Hsame, Hstate, lookup_put_effect_ne by done.
    by apply lookup_put_effect_eq. }
  assert (state st' !! "seller1" = Some r2) as Hst2.
  { rewrite Hsame, Hstate. by apply lookup_put_effect_eq. }
  assert (ReadReputationScore "buyer1" st'
          = ((mkReputation "buyer1" (F64.of_Z 80), None), st')) as Hread1.
  { rewrite (ReadReputationScore_stored _ _ _ Hget1 Hst1). simpl.
    by rewrite Hdec1. }
  assert (ReadReputationScore "seller1" st'
          = ((mkReputation "seller1" (F64.of_Z 85), None), st')) as Hread2.
  { rewrite (ReadReputationScore_stored _ _ _ Hget2 Hst2). simpl.
    by rewrite Hdec2. }
  split_and!; [done|done| |].
  - eapply passes_of_score; [by rewrite Hread1|by vm_compute].
  - eapply passes_of_score; [by rewrite Hread2|by vm_compute].
Qed.

(** X20. After a successful [InitLedger], with a codec that round-trips
    the seeded asset, [ReadEnergyAsset] of [energy1] returns it as it was
    seeded, both signatures included, on any readable host holding the
    resulting state: the later puts of the reputations do not touch it. *)
Theorem InitLedger_then_ReadEnergyAsset st st' :
  round_trips energy1_asset →
  (InitLedger st).1 = None →
  state st' = state (InitLedger st).2 →
  get_failure st' "energy1" = None →
  ReadEnergyAsset "energy1" st' = ((Some energy1_asset, None), st').
Proof.
  intros Hrt
    (a1 & a2 & e1 & r1 & r2 & _ & _ & He1 & _ & _ & Hstate)%InitLedger_state
    Hsame Hget.
  destruct (Hrt _ He1) as [Hne Hdec].
  assert (state st' !! "energy1" = Some e1) as Hst.
  { rewrite Hsame, Hstate, !lookup_put_effect_ne by done.
    by apply lookup_put_effect_eq. }
  unfold ReadEnergyAsset, bind.
  rewrite (GetState_reachable _ _ Hget), Hst. simpl.
  unfold json_Unmarshal. simpl. by rewrite Hdec.
Qed.

(** X18. [InitLedger] is not atomic: when the accounts can be written and
    the host refuses the put of [energy1], it returns the host's error
    with the two accounts already written and no reputation seeded. *)
Theorem InitLedger_not_atomic st account1 account2 asset1 msg :
  Marshal buyer1_account = inl account1 →
  Marshal seller1_account = inl account2 →
  Marshal energy1_asset = inl asset1 →
  put_failure st "buyer1" = None →
  put_failure st "seller1" = None →
  put_failure st "energy1" = Some msg →
  InitLedger st =
    (Some (StubError msg),
     mkStub
       (put_effect "seller1" (Some account2)
          (put_effect "buyer1" (Some account1) (state st)))
       (puts st ++ [ ("buyer1", Some account1); ("seller1", Some account2);
                     ("energy1", Some asset1) ])
       (get_failure st) (put_failure st)).
Proof.
  intros Ha1 Ha2 He1 Hp1 Hp2 Hp3.
  set (st1 := mkStub
                (put_effect "seller1" (Some account2)
                   (put_effect "buyer1" (Some account1) (state st)))
                (puts st ++ [("buyer1", Some account1);
                             ("seller1", Some account2)])
                (get_failure st) (put_failure st)).
  assert (put_all AccountID seed_accounts st = (None, st1)) as Haccounts.
  { rewrite put_all_writes.
    - change seed_accounts with [buyer1_account; seller1_account].
      cbn [foldl map]. unfold write, call.
      by rewrite !json_Marshal_bytes, Ha1, Ha2.
    - change seed_accounts with [buyer1_account; seller1_account].
      repeat constructor; unfold writable; by eauto. }
  rewrite InitLedger_eq. cbv zeta. rewrite Haccounts. cbn [failed fst snd].
  change seed_assets with [energy1_asset].
  rewrite put_all_cons, He1.
  change (TokenID energy1_asset) with "energy1".
  unfold PutState. subst st1. cbn [put_failure state puts get_failure].
  destruct (decide ("energy1" = "")); [done|]. rewrite Hp3.
  cbn [failed fst]. by rewrite <- app_assoc.
Qed.

(** X21. Create, then ask: after a successful [CreateEnergyAsset] whose
    record has a non-empty encoding, [EnergyAssetExists] of the same
    [tokenID] answers true, without error, on any readable host holding
    the resulting state. *)
Theorem CreateEnergyAsset_then_EnergyAssetExists
    tokenID buyerAddress sellerAddress energyAmount transactionPrice
    timestamp buyerDeposit sellerDeposit st st' :
  Marshal (created tokenID buyerAddress sellerAddress energyAmount
             transactionPrice timestamp buyerDeposit sellerDeposit)
    ≠ inl [] →
  (CreateEnergyAsset tokenID buyerAddress sellerAddress energyAmount
     transactionPrice timestamp buyerDeposit sellerDeposit st).1 = None →
  state st' =
    state (CreateEnergyAsset tokenID buyerAddress sellerAddress energyAmount
             transactionPrice timestamp buyerDeposit sellerDeposit st).2 →
  get_failure st' tokenID = None →
  EnergyAssetExists tokenID st' = ((true, None), st').
Proof.
  intros Hne Hok Hsame Hget.
  assert (is_Some (state st' !! tokenID)) as [b Hb].
  { rewrite Hsame. revert Hok.
    rewrite CreateEnergyAsset_decision_list.
    destruct (decide (passes st buyerAddress)); [|done].
    destruct (decide (passes st sellerAddress)); [|done].
    destruct (negb _ || failed _); [done|].
    destruct (Marshal _) as [[|c assetJSON]|msg] eqn:Henc; [done| |done].
    intros Hput. apply PutState_ok_iff in Hput as [Hkey Hput].
    rewrite PutState_accepted by done. simpl.
    rewrite lookup_insert_eq. by eauto. }
  rewrite EnergyAssetExists_eq, (GetState_reachable _ _ Hget). simpl.
  by rewrite Hb.
Qed.

End Further.

(** ** The further statements on the seeded ledger *)

Section Further_scenarios.

#[local] Existing Instances
  Reference.asset Reference.account Reference.reputation.

Import Scenario.

(** [seller1] alone has lost its standing. *)
Definition seller_disgraced : Stub :=
  (UpdateReputationScore "seller1" (F64.of_Z (-60)) seeded).2.

Lemma clamp_keeps_scores_in_range_witness :
  clamp (F64.of_Z 80) = F64.of_Z 80.
Proof. apply clamp_keeps_scores_in_range. by vm_compute. Defined.

Lemma CheckReputationPenalty_lets_unknown_pass_witness :
  CheckReputationPenalty "newcomer" seeded = ((false, None), seeded).
Proof.
  apply CheckReputationPenalty_lets_unknown_pass. left. vm_compute. reflexivity.
Defined.

(** [buyer1] at 80 passes, [seller1] at 25 does not, and [energy1] is
    taken. *)
Lemma CreateEnergyAsset_seller_checked_second_witness :
  CreateEnergyAsset "energy1" "buyer1" "seller1" five quarter noon five five
    seller_disgraced
  = (Some (ErrSellerReputationTooLow "seller1"), seller_disgraced).
Proof.
  apply CreateEnergyAsset_seller_checked_second; vm_compute; reflexivity.
Defined.

(** One byte that is no record is stored under [buyer1]. *)
Lemma CreateEnergyAsset_folds_decode_error_witness :
  CreateEnergyAsset "energy2" "buyer1" "seller1" five quarter noon five five
    (holding "buyer1" [Byte.x00] seeded)
  = (Some (ErrBuyerReputationTooLow "buyer1"),
     holding "buyer1" [Byte.x00] seeded).
Proof.
  eapply CreateEnergyAsset_folds_decode_error. vm_compute. reflexivity.
Defined.

(** The host refuses the put of [energy2]. *)
Lemma CreateEnergyAsset_error_kinds_witness :
  StubError "endorsement failed" = ErrBuyerReputationTooLow "buyer1" ∨
  StubError "endorsement failed" = ErrSellerReputationTooLow "seller1" ∨
  StubError "endorsement failed" = ErrAlreadyExists "energy2" ∨
  (∃ msg, StubError "endorsement failed" = JSONError msg ∧
          Marshal (created "energy2" "buyer1" "seller1" five quarter noon
                     five five) = inr msg) ∨
  (∃ msg, StubError "endorsement failed" = StubError msg ∧
          ("energy2" = "" ∨
           put_failure (read_only "energy2" seeded) "energy2" = Some msg)).
Proof.
  apply (CreateEnergyAsset_error_kinds "energy2" "buyer1" "seller1"
           five quarter noon five five (read_only "energy2" seeded)).
  vm_compute. reflexivity.
Defined.


Lemma CreateEnergyAsset_then_EnergyAssetExists_witness :
  EnergyAssetExists "energy2"
    (CreateEnergyAsset "energy2" "buyer1" "seller1" five quarter noon
       five five seeded).2
  = ((true, None),
     (CreateEnergyAsset "energy2" "buyer1" "seller1" five quarter noon
        five five seeded).2).
Proof.
  apply (CreateEnergyAsset_then_EnergyAssetExists "energy2" "buyer1" "seller1"
           five quarter noon five five seeded).
  - vm_compute. discriminate.
  - vm_compute. reflexivity.
  - reflexivity.
  - vm_compute. reflexivity.
Defined.

(** [buyer1] goes from 80 to 30. *)
Lemma UpdateReputationScore_then_ReadReputationScore_witness :
  ReadReputationScore "buyer1"
    (UpdateReputationScore "buyer1" (F64.of_Z (-50)) seeded).2
  = ((mkReputation "buyer1"
        (clamp (F64.add (F64.of_Z 80) (F64.of_Z (-50)))), None),
     (UpdateReputationScore "buyer1" (F64.of_Z (-50)) seeded).2).
Proof.
  eapply (UpdateReputationScore_then_ReadReputationScore
            "buyer1" (F64.of_Z (-50)) seeded (mkReputation "buyer1" (F64.of_Z 80))).
  - vm_compute. reflexivity.
  - vm_compute. reflexivity.
  - apply codec_round_trips.
  - vm_compute. reflexivity.
  - reflexivity.
  - vm_compute. reflexivity.
Defined.

(** A delta of NaN on [buyer1]. *)
Lemma UpdateReputationScore_nan_erases_witness :
  state (UpdateReputationScore "buyer1" S754_nan seeded).2 !! "buyer1" = None ∧
  ReadReputationScore "buyer1"
    (UpdateReputationScore "buyer1" S754_nan seeded).2
  = ((mkReputation "buyer1" (F64.of_Z 50), None),
     (UpdateReputationScore "buyer1" S754_nan seeded).2).
Proof.
  apply (UpdateReputationScore_nan_erases "buyer1" S754_nan seeded).
  - apply reference_refuses_non_finite.
  - vm_compute. reflexivity.
  - vm_compute. reflexivity.
  - reflexivity.
Defined.

(** [InitLedger] on the empty ledger of a host without failures. *)
Lemma InitLedger_writes_in_order_witness :
  ∃ account1 account2 asset1 reputation1 reputation2,
    Marshal buyer1_account = inl account1 ∧
    Marshal seller1_account = inl account2 ∧
    Marshal energy1_asset = inl asset1 ∧
    Marshal buyer1_reputation = inl reputation1 ∧
    Marshal seller1_reputation = inl reputation2 ∧
    puts (InitLedger Reference.genesis).2 =
      puts Reference.genesis ++
        [ ("buyer1", Some account1); ("seller1", Some account2);
          ("energy1", Some asset1);
          ("buyer1", Some reputation1);
          ("seller1", Some reputation2) ].
Proof.
  apply InitLedger_writes_in_order. vm_compute. reflexivity.
Defined.

Lemma InitLedger_reputations_replace_accounts_witness :
  ∃ reputation1 reputation2,
    Marshal buyer1_reputation = inl reputation1 ∧
    Marshal seller1_reputation = inl reputation2 ∧
    state (InitLedger Reference.genesis).2 !! "buyer1" = Some reputation1 ∧
    state (InitLedger Reference.genesis).2 !! "seller1" = Some reputation2.
Proof.
  apply InitLedger_reputations_replace_accounts.
  - vm_compute. reflexivity.
  - vm_compute. discriminate.
  - vm_compute. discriminate.
Defined.

Lemma InitLedger_then_ReadReputationScore_witness :
  ReadReputationScore "buyer1" seeded
    = ((mkReputation "buyer1" (F64.of_Z 80), None), seeded) ∧
  ReadReputationScore "seller1" seeded
    = ((mkReputation "seller1" (F64.of_Z 85), None), seeded) ∧
  passes seeded "buyer1" ∧ passes seeded "seller1".
Proof.
  apply (InitLedger_then_ReadReputationScore Reference.genesis seeded).
  - apply codec_round_trips.
  - apply codec_round_trips.
  - vm_compute. reflexivity.
  - reflexivity.
  - vm_compute. reflexivity.
  - vm_compute. reflexivity.
Defined.

Lemma InitLedger_then_ReadEnergyAsset_witness :
  ReadEnergyAsset "energy1" seeded = ((Some energy1_asset, None), seeded).
Proof.
  apply (InitLedger_then_ReadEnergyAsset Reference.genesis seeded).
  - apply codec_round_trips.
  - vm_compute. reflexivity.
  - reflexivity.
  - vm_compute. reflexivity.
Defined.

(** The host refuses the put of [energy1]: the two accounts stay
    behind. *)
Lemma InitLedger_not_atomic_witness :
  ∃ account1 account2 asset1,
    InitLedger (read_only "energy1" Reference.genesis) =
      (Some (StubError "endorsement failed"),
       mkStub
         (put_effect "seller1" (Some account2)
            (put_effect "buyer1" (Some account1)
               (state (read_only "energy1" Reference.genesis))))
         (puts (read_only "energy1" Reference.genesis)
            ++ [ ("buyer1", Some account1); ("seller1", Some account2);
                 ("energy1", Some asset1) ])
         (get_failure (read_only "energy1" Reference.genesis))
         (put_failure (read_only "energy1" Reference.genesis))).
Proof.
  do 3 eexists.
  apply (InitLedger_not_atomic (read_only "energy1" Reference.genesis));
    vm_compute; reflexivity.
Defined.

End Further_scenarios.
